(** * Shop Lite API (src/main.py): a verified model of the request handlers

    The handlers of [src/main.py] are embedded as functions over an explicit
    store state.  Python dictionaries are finite maps with string keys,
    exceptions are a sum type, and the module-level handle [db] is threaded
    through every handler.  The MongoDB driver, the BSON identifier type and
    the framework's response models are modelled by what they do for the
    handlers; the two helpers imported from the [database] module are
    modelled from the specification. *)

From Stdlib Require Import PrimFloat Ascii String.
From stdpp Require Import gmap strings list fin_maps.

Set Warnings "-register-all".
Set Default Proof Using "Type".


(** ** Python text

    A [str] is represented by the string of its UTF-8 bytes, so that the
    literals of the source can be written down verbatim.  Lengths and slices
    of a [str] count characters (code points): a byte [10xxxxxx] continues
    the character started before it and is never counted on its own. *)

Module PyStr.

Definition is_continuation (a : ascii) : bool :=
  let n := N_of_ascii a in ((128 <=? n) && (n <? 192))%N.

(** [len(s)] *)
Fixpoint len (s : string) : nat :=
  match s with
  | EmptyString => 0
  | String a r => if is_continuation a then len r else S (len r)
  end.

(** [s[:n]]: the first [n] characters, each with all of its bytes. *)
Fixpoint take (n : nat) (s : string) : string :=
  match s with
  | EmptyString => EmptyString
  | String a r =>
      if is_continuation a then String a (take n r)
      else match n with
           | O => EmptyString
           | S n' => String a (take n' r)
           end
  end.

(** A character below U+0080 is a single byte. *)
Definition is_ascii_char (a : ascii) : bool := (N_of_ascii a <? 128)%N.

Fixpoint all_chars (p : ascii -> bool) (s : string) : bool :=
  match s with
  | EmptyString => true
  | String a r => p a && all_chars p r
  end.

End PyStr.

(** ** BSON object identifiers

    An identifier as a store files it is a 12-byte value, kept here as the
    96-bit number the bytes spell (big endian); [str(oid)] is its 24-digit
    lower-case hexadecimal rendering.  [ObjectId(s)] takes a string of 24
    characters and keeps [bytes.fromhex(s)], which skips ASCII whitespace
    around each pair of digits: the object holds twelve bytes when the
    characters are 24 digits and fewer when some of them are whitespace.  It
    raises [InvalidId] on any other string. *)

Module Oid.

Definition ObjectId := N.

Definition bound : N := 16 ^ 24.

Definition hex_digit (d : N) : ascii :=
  if (d <? 10)%N then ascii_of_N (48 + d) else ascii_of_N (87 + d).

Definition hex_value (a : ascii) : option N :=
  let n := N_of_ascii a in
  if ((48 <=? n) && (n <=? 57))%N then Some (n - 48)%N
  else if ((97 <=? n) && (n <=? 102))%N then Some (n - 87)%N
  else if ((65 <=? n) && (n <=? 70))%N then Some (n - 55)%N
  else None.

(** The [k] lowest hexadecimal digits of [n], most significant first. *)
Fixpoint to_hex (k : nat) (n : N) : string :=
  match k with
  | O => EmptyString
  | S k' => String (hex_digit ((n / 16 ^ N.of_nat k') mod 16)%N) (to_hex k' n)
  end.

(** ASCII whitespace: space, tab, line feed, vertical tab, form feed and
    carriage return. *)
Definition is_space (a : ascii) : bool :=
  let n := N_of_ascii a in ((n =? 32) || ((9 <=? n) && (n <=? 13)))%N.

(** [bytes.fromhex(s)]: one byte per pair of digits, whitespace skipped
    before a pair and at the end; [None] stands for its [ValueError]. *)
Fixpoint fromhex (s : string) : option (list N) :=
  match s with
  | EmptyString => Some []
  | String a r =>
      if is_space a then fromhex r
      else
        match r with
        | EmptyString => None
        | String b r' =>
            match hex_value a, hex_value b with
            | Some top, Some bot => cons (top * 16 + bot)%N <$> fromhex r'
            | _, _ => None
            end
        end
  end.

(** The number that bytes spell, big endian. *)
Definition number (bs : list N) : N := foldl (λ acc b, acc * 256 + b)%N 0%N bs.

(** The [k] lowest bytes of [n], most significant first. *)
Fixpoint to_bytes (k : nat) (n : N) : list N :=
  match k with
  | O => []
  | S k' => ((n / 256 ^ N.of_nat k') mod 256)%N :: to_bytes k' n
  end.

(** [oid.binary]: the twelve bytes of an identifier. *)
Definition binary (o : ObjectId) : list N := to_bytes 12 o.

(** The identifier a store can hold that is equal to an object with the
    bytes [bs]: there is one when the bytes are twelve, and none otherwise. *)
Definition of_bytes (bs : list N) : option ObjectId :=
  if Nat.eqb (length bs) 12 then Some (number bs) else None.

(** [str(oid)] *)
Definition to_str (o : ObjectId) : string := to_hex 24 o.

(** [ObjectId(s)], by the bytes the object holds: [None] stands for the
    [InvalidId] exception. *)
Definition parse (s : string) : option (list N) :=
  if Nat.eqb (PyStr.len s) 24 then fromhex s else None.

End Oid.

(** ** Values, documents and exceptions *)

(** The values a document can hold.  A document (a Python [dict] with
    string keys, a BSON document) is a finite map from keys to values. *)
Inductive value :=
  | VNone
  | VBool (b : bool)
  | VInt (z : Z)
  | VFloat (f : float)
  | VStr (s : string)
  | VOid (o : Oid.ObjectId)
  | VList (l : list value)
  | VDict (d : gmap string value).

Abbreviation doc := (gmap string value).

(** [bool(d)] of a dictionary: [len(d) != 0]. *)
Definition truthy (d : doc) : bool := negb (Nat.eqb (size d) 0).

(** What a call does: it returns a value or raises. *)
Inductive outcome (E A : Type) :=
  | Returns (a : A)
  | Raises (e : E).
Arguments Returns {E A} a.
Arguments Raises {E A} e.

(** The exceptions that leave a handler or the framework around it.
    [ResponseValidationError] is the framework's, raised when what a handler
    returned does not fit the [response_model] of its route.  [Exception
    text] is any exception of the driver or the runtime, with
    [str(e) = text]. *)
Inductive exn :=
  | HTTPException (status_code : Z) (detail : string)
  | InvalidId
  | StoreUnavailable
  | ResponseValidationError
  | Exception (text : string).

(** What a route answers with, given the outcome of its handler: a returned
    value is validated against the route's [response_model] and what the
    model makes of it is sent; an exception stays as it is. *)
Definition answer {A B} (response_model : A -> option B) (r : outcome exn A)
  : outcome exn B :=
  match r with
  | Returns a =>
      match response_model a with
      | Some b => Returns b
      | None => Raises ResponseValidationError
      end
  | Raises e => Raises e
  end.

(** The status line of the answer: 200 with a body, the status an
    [HTTPException] carries, and a generic server error for any other
    exception. *)
Definition http_status {A B} (response_model : A -> option B)
    (r : outcome exn A) : Z :=
  match answer response_model r with
  | Returns _ => 200
  | Raises (HTTPException c _) => c
  | Raises _ => 500
  end.

(** A route declared without a [response_model] sends what its handler
    returned. *)
Definition no_model {A} (a : A) : option A := Some a.

(** [response_model=str] on a handler that returns a [str]. *)
Definition str_model (s : string) : option string := Some s.

(** ** State and exceptions

    A computation reads and updates a state of type [S] and either returns
    or raises; what it wrote before raising stays written. *)

Definition SE (S E A : Type) : Type := S -> outcome E A * S.

Global Instance SE_ret {S E} : MRet (SE S E) :=
  λ A a s, (Returns a, s).

Global Instance SE_bind {S E} : MBind (SE S E) :=
  λ A B f m s,
    match m s with
    | (Returns a, s') => f a s'
    | (Raises e, s') => (Raises e, s')
    end.

Definition raise {S E A} (e : E) : SE S E A := λ s, (Raises e, s).

Definition get_state {S E} : SE S E S := λ s, (Returns s, s).

Definition modify {S E} (f : S -> S) : SE S E unit := λ s, (Returns tt, f s).

(** [try: body except Exception as e: handler(e)] *)
Definition try_except {S E A} (body : SE S E A) (handler : E -> SE S E A)
  : SE S E A :=
  λ s,
    match body s with
    | (Returns a, s') => (Returns a, s')
    | (Raises e, s') => handler e s'
    end.

(** A call that does not touch the state. *)
Definition call {S E A} (r : outcome E A) : SE S E A := λ s, (r, s).

(** ** The document store

    The handle [db] of the [database] module is [None] when the connection
    string or the database name is missing from the environment, and a
    database otherwise.  A database holds its collections, each a list of
    documents in insertion order, the names of the collections in the order
    the server lists them, and the next identifier its driver hands out.
    [db_fault] is [Some text] while the server cannot be reached: every
    round trip then raises an exception with [str(e) = text]. *)

Record Database := {
  db_name : option string;
  db_colls : gmap string (list doc);
  db_listing : list string;
  db_next_oid : Oid.ObjectId;
  db_fault : option string;
}.

Definition Store := option Database.

Module Driver.

(** [db[name]] *)
Definition collection (d : Database) (name : string) : list doc :=
  default [] (db_colls d !! name).

Definition round_trip {A} (d : Database) (a : A) : outcome string A :=
  match db_fault d with
  | Some text => Raises text
  | None => Returns a
  end.

(** The filter [{"_id": o}]. *)
Definition has_id (o : Oid.ObjectId) (x : doc) : bool :=
  match x !! "_id" with
  | Some (VOid o') => N.eqb o' o
  | _ => false
  end.

(** [db[name].find_one({"_id": oid})] for an object with the bytes [bs]:
    the first document whose identifier is equal to it, or [None]. *)
Definition find_one (d : Database) (name : string) (bs : list N)
  : outcome string (option doc) :=
  round_trip d (o ← Oid.of_bytes bs; List.find (has_id o) (collection d name)).

(** [db[name].count_documents({})] *)
Definition count_documents (d : Database) (name : string) : outcome string Z :=
  round_trip d (Z.of_nat (length (collection d name))).

(** [db.list_collection_names()] *)
Definition list_collection_names (d : Database) : outcome string (list string) :=
  round_trip d (db_listing d).

(** The store after [record] was appended to [name] under the identifier
    the driver assigns; a collection that was not there is created and
    listed after the others. *)
Definition append (d : Database) (name : string) (record : doc) : Database :=
  {| db_name := db_name d;
     db_colls :=
       <[name := collection d name ++ [<["_id" := VOid (db_next_oid d)]> record]]>
         (db_colls d);
     db_listing :=
       if bool_decide (name ∈ db_listing d) then db_listing d
       else db_listing d ++ [name];
     db_next_oid := N.succ (db_next_oid d);
     db_fault := db_fault d |}.

End Driver.

(** The driver's exceptions reach a handler as plain exceptions. *)
Definition driver {A} (r : outcome string A) : SE Store exn A :=
  call (match r with
        | Returns a => Returns a
        | Raises text => Raises (Exception text)
        end).

(** ** The [database] module *)

(** Modelled from the spec: [create_document] of the [database] module, which
    is not among the sources.  Section 4.1: insert(collection_name, record)
    appends record to the named collection and returns the newly assigned
    opaque identifier as a string; it fails with StoreUnavailable if no
    connection is established. *)
Definition create_document (collection_name : string) (data : doc)
  : SE Store exn string :=
  λ db,
    match db with
    | None => (Raises StoreUnavailable, db)
    | Some d =>
        match db_fault d with
        | Some _ => (Raises StoreUnavailable, db)
        | None =>
            (Returns (Oid.to_str (db_next_oid d)),
             Some (Driver.append d collection_name data))
        end
    end.

(** Modelled from the spec: [get_documents] of the [database] module, which
    is not among the sources.  Section 4.1: list_all(collection_name) returns
    all records in insertion order, fails with StoreUnavailable under the
    same condition, and returns an empty sequence if the collection does not
    exist. *)
Definition get_documents (collection_name : string) : SE Store exn (list doc) :=
  λ db,
    match db with
    | None => (Raises StoreUnavailable, db)
    | Some d =>
        match db_fault d with
        | Some _ => (Raises StoreUnavailable, db)
        | None => (Returns (Driver.collection d collection_name), db)
        end
    end.

(** ** The [schemas] module *)

(** Modelled from the spec: the [Product] schema of the [schemas] module,
    which is not among the sources.  Section 3: title (text), description
    (text), price (decimal/float, non-negative), category (text), in_stock
    (boolean), image (URI string). *)
Record Product := {
  title : string;
  description : string;
  price : float;
  category : string;
  in_stock : bool;
  image : string;
}.

(** Modelled from the spec: the one constraint of the [Product] schema beyond
    the field types, a price that is non-negative (section 3). *)
Definition Product_valid (p : Product) : Prop := PrimFloat.leb 0 (price p) = true.

(** Modelled from the spec: the dictionary of a validated payload, one item
    per field of the [Product] schema. *)
Definition Product_dump (p : Product) : doc :=
  {[ "title" := VStr (title p);
     "description" := VStr (description p);
     "price" := VFloat (price p);
     "category" := VStr (category p);
     "in_stock" := VBool (in_stock p);
     "image" := VStr (image p) ]}.

Definition is_str (v : option value) : bool :=
  match v with Some (VStr _) => true | _ => false end.

Definition is_bool (v : option value) : bool :=
  match v with Some (VBool _) => true | _ => false end.

Definition is_nonneg_float (v : option value) : bool :=
  match v with Some (VFloat f) => PrimFloat.leb 0 f | _ => false end.

(** Modelled from the spec: a dictionary has the field set of the [Product]
    schema (section 3), that is the four texts, a price that is a
    non-negative float and a boolean stock flag. *)
Definition has_product_fields (d : doc) : bool :=
  is_str (d !! "title") && is_str (d !! "description")
  && is_nonneg_float (d !! "price") && is_str (d !! "category")
  && is_bool (d !! "in_stock") && is_str (d !! "image").

(** Modelled from the spec: the [Order] schema of the [schemas] module, which
    is not among the sources.  Section 3: intentionally unconstrained beyond
    being a record. *)
Definition Order := doc.

(** ** The handlers of [src/main.py] *)

(** [serialize_doc], on the value of the dictionary it is given.  The copy
    [dict(doc)] and the two updates are traced on objects in [Heap] below. *)
Definition serialize_doc (d : doc) : doc :=
  if negb (truthy d) then d
  else
    match d !! "_id" with
    | Some (VOid _id) => delete "_id" (<["id" := VStr (Oid.to_str _id)]> d)
    | _ => d
    end.

Definition read_root : doc := {[ "message" := VStr "Shop Lite Backend Running" ]}.

Definition hello : doc := {[ "message" := VStr "Hello from the backend API!" ]}.

(** [response[k] = v] *)
Definition set_item {E} (k : string) (v : value) : SE doc E unit :=
  modify (insert k v).

(** [bool(os.getenv(k))]: the variable is set and not empty. *)
Definition getenv_truthy (environ : gmap string string) (k : string) : bool :=
  match environ !! k with
  | Some v => negb (String.eqb v "")
  | None => false
  end.

(** [test_database]: the state is the dictionary [response] that the body
    fills in; an exception is known by its text [str(e)]. *)
Definition test_database (db : Store) (environ : gmap string string)
  : outcome string doc :=
  let response : doc :=
    {[ "backend" := VStr "✅ Running";
       "database" := VStr "❌ Not Available";
       "database_url" := VNone;
       "database_name" := VNone;
       "connection_status" := VStr "Not Connected";
       "collections" := VList [] ]} in
  let body : SE doc string unit :=
    try_except
      (match db with
       | Some d =>
           set_item "database" (VStr "✅ Available");;
           set_item "database_url" (VStr "✅ Configured");;
           set_item "database_name"
             (VStr (match db_name d with Some n => n | None => "✅ Connected" end));;
           set_item "connection_status" (VStr "Connected");;
           try_except
             (collections ← call (Driver.list_collection_names d);
              set_item "collections" (VList (VStr <$> take 10 collections));;
              set_item "database" (VStr "✅ Connected & Working"))
             (λ e, set_item "database"
                     (VStr ("⚠️  Connected but Error: " +:+ PyStr.take 50 e)))
       | None => set_item "database" (VStr "⚠️  Available but not initialized")
       end)
      (λ e, set_item "database" (VStr ("❌ Error: " +:+ PyStr.take 50 e)));;
    set_item "database_url"
      (VStr (if getenv_truthy environ "DATABASE_URL" then "✅ Set" else "❌ Not Set"));;
    set_item "database_name"
      (VStr (if getenv_truthy environ "DATABASE_NAME" then "✅ Set" else "❌ Not Set"))
  in
  match body response with
  | (Returns _, response') => Returns response'
  | (Raises e, _) => Raises e
  end.

Definition list_products : SE Store exn (list doc) :=
  db ← get_state;
  match db with
  | None => mret []
  | Some _ =>
      docs ← get_documents "product";
      mret (serialize_doc <$> docs)
  end.

Definition create_product (product : Product) : SE Store exn string :=
  db ← get_state;
  match db with
  | None => raise (HTTPException 500 "Database not configured")
  | Some _ =>
      inserted_id ← create_document "product" (Product_dump product);
      mret inserted_id
  end.

Definition get_product (product_id : string) : SE Store exn doc :=
  db ← get_state;
  match db with
  | None => raise (HTTPException 500 "Database not configured")
  | Some d =>
      found ← try_except
                (match Oid.parse product_id with
                 | Some bs => driver (Driver.find_one d "product" bs)
                 | None => raise InvalidId
                 end)
                (λ _, raise (HTTPException 400 "Invalid product id"));
      match found with
      | Some x =>
          if truthy x then mret (serialize_doc x)
          else raise (HTTPException 404 "Product not found")
      | None => raise (HTTPException 404 "Product not found")
      end
  end.

Definition samples : list doc :=
  [
    {[ "title" := VStr "Minimal Tee";
       "description" := VStr "Soft cotton t‑shirt with relaxed fit.";
       "price" := VFloat 24;
       "category" := VStr "Apparel";
       "in_stock" := VBool true;
       "image" := VStr "https://images.unsplash.com/photo-1512436991641-6745cdb1723f?q=80&w=800&auto=format&fit=crop" ]};
    {[ "title" := VStr "Everyday Backpack";
       "description" := VStr "Water‑resistant with laptop sleeve.";
       "price" := VFloat 79;
       "category" := VStr "Bags";
       "in_stock" := VBool true;
       "image" := VStr "https://images.unsplash.com/photo-1547949003-9792a18a2601?q=80&w=800&auto=format&fit=crop" ]};
    {[ "title" := VStr "Ceramic Mug";
       "description" := VStr "12oz glazed mug for hot and cold drinks.";
       "price" := VFloat 14;
       "category" := VStr "Home";
       "in_stock" := VBool true;
       "image" := VStr "https://images.unsplash.com/photo-1520975661595-6453be3f7070?q=80&w=800&auto=format&fit=crop" ]};
    {[ "title" := VStr "Running Sneakers";
       "description" := VStr "Breathable mesh, cushioned sole.";
       "price" := VFloat 110;
       "category" := VStr "Footwear";
       "in_stock" := VBool true;
       "image" := VStr "https://images.unsplash.com/photo-1542291026-7eec264c27ff?q=80&w=800&auto=format&fit=crop" ]}
  ].

(** [for p in samples: create_document("product", p); inserted += 1] *)
Fixpoint seed_loop (ps : list doc) (inserted : Z) : SE Store exn Z :=
  match ps with
  | [] => mret inserted
  | p :: rest => create_document "product" p;; seed_loop rest (inserted + 1)%Z
  end.

Definition seed_products : SE Store exn doc :=
  db ← get_state;
  match db with
  | None => raise (HTTPException 500 "Database not configured")
  | Some d =>
      count ← driver (Driver.count_documents d "product");
      if (0 <? count)%Z then
        mret ({[ "inserted" := VInt 0;
                 "message" := VStr "Products already exist" ]} : doc)
      else
        inserted ← seed_loop samples 0;
        mret ({[ "inserted" := VInt inserted ]} : doc)
  end.

Definition create_order (order : Order) : SE Store exn string :=
  db ← get_state;
  match db with
  | None => raise (HTTPException 500 "Database not configured")
  | Some _ =>
      inserted_id ← create_document "order" order;
      mret inserted_id
  end.

(** ** The response models of the routes *)

(** [class ProductOut(Product): id: str] *)
Record ProductOut := {
  ProductOut_product : Product;
  ProductOut_id : string;
}.

(** The body sent for a [ProductOut]: the items of the product, and the
    text under ["id"]. *)
Definition ProductOut_dump (o : ProductOut) : doc :=
  <["id" := VStr (ProductOut_id o)]> (Product_dump (ProductOut_product o)).

Section ResponseModels.

(** How the fields that [Product] declares are validated belongs to the
    [schemas] module, which is not among the sources, and how a [str] field
    is validated belongs to pydantic: both are parameters. *)
Variable Product_validate : doc -> option Product.
Variable str_validate : value -> option string.

(** [response_model=ProductOut]: the returned dictionary is validated as a
    [ProductOut], whose ["id"] is required, and the dump of the result is
    sent; [None] when the dictionary does not fit. *)
Definition ProductOut_model (r : doc) : option doc :=
  match r !! "id" with
  | Some v =>
      i ← str_validate v;
      p ← Product_validate r;
      Some (ProductOut_dump {| ProductOut_product := p; ProductOut_id := i |})
  | None => None
  end.

(** [response_model=List[ProductOut]]: every item has to fit. *)
Definition ProductOut_list_model (rs : list doc) : option (list doc) :=
  mapM ProductOut_model rs.

End ResponseModels.

(** Modelled from the spec: one validation of the [Product] fields, by the
    types of section 3 and without conversions, for the sample inputs. *)
Definition Product_strict (r : doc) : option Product :=
  match r !! "title", r !! "description", r !! "price" with
  | Some (VStr t), Some (VStr de), Some (VFloat p) =>
      match r !! "category", r !! "in_stock", r !! "image" with
      | Some (VStr c), Some (VBool s), Some (VStr i) =>
          if PrimFloat.leb 0 p
          then Some {| title := t; description := de; price := p;
                       category := c; in_stock := s; image := i |}
          else None
      | _, _, _ => None
      end
  | _, _, _ => None
  end.

(** A [str] field that takes a [str] and nothing else. *)
Definition str_strict (v : value) : option string :=
  match v with
  | VStr s => Some s
  | _ => None
  end.

(** ** [serialize_doc] on objects

    Dictionaries are objects with an identity: a heap maps each location to
    the current content of the dictionary that lives there, and an
    assignment through one reference is seen through every other. *)

Module Heap.

Definition loc := positive.

Abbreviation heap := (gmap loc doc).

(** What [serialize_doc] is handed and hands back: [None] or a dictionary. *)
Inductive ref :=
  | RNone
  | RDict (l : loc).

(** [dict(m)]: a new object with the same items. *)
Definition new_dict (m : doc) (h : heap) : loc * heap :=
  let l := fresh (dom h) in (l, <[l := m]> h).

(** [d[k] = v] *)
Definition setitem (l : loc) (k : string) (v : value) (h : heap) : heap :=
  alter (insert k v) l h.

(** [del d[k]] *)
Definition delitem (l : loc) (k : string) (h : heap) : heap :=
  alter (delete k) l h.

(** [d.get(k)] *)
Definition getitem (l : loc) (k : string) (h : heap) : option value :=
  m ← h !! l; m !! k.

(** [serialize_doc(doc)]; the result is [None] only for a reference to no
    object, which no Python program holds. *)
Definition serialize_doc (r : ref) (h : heap) : option (ref * heap) :=
  match r with
  | RNone => Some (RNone, h)
  | RDict l =>
      m ← h !! l;
      if negb (truthy m) then Some (RDict l, h)
      else
        let '(l', h1) := new_dict m h in
        match getitem l' "_id" h1 with
        | Some (VOid _id) =>
            let h2 := setitem l' "id" (VStr (Oid.to_str _id)) h1 in
            let h3 := delitem l' "_id" h2 in
            Some (RDict l', h3)
        | _ => Some (RDict l', h1)
        end
  end.

End Heap.

(** ** Invariants and sample inputs *)

(** Every document of the list carries an identifier the driver assigned
    before [n]. *)
Definition ids_below (n : Oid.ObjectId) (l : list doc) : Prop :=
  Forall (λ x, ∃ o, x !! "_id" = Some (VOid o) ∧ (o < n)%N) l.

(** The invariant of a store that only this service writes to: the
    identifiers in use are the ones handed out so far. *)
Definition wf_db (d : Database) : Prop :=
  ∀ name l, db_colls d !! name = Some l → ids_below (db_next_oid d) l.

(** A document keyed by an [ObjectId], as the driver files them. *)
Definition oid_keyed (x : doc) : Prop := ∃ o, x !! "_id" = Some (VOid o).

(** A record as a client may see it: a string under ["id"], nothing under
    ["_id"]. *)
Definition client_record (r : doc) : Prop :=
  (∃ s, r !! "id" = Some (VStr s)) ∧ r !! "_id" = None.

(** A reference that a Python program can hold: [None] or a live object. *)
Definition live (h : Heap.heap) (r : Heap.ref) : Prop :=
  match r with
  | Heap.RNone => True
  | Heap.RDict l => is_Some (h !! l)
  end.

(** The records [ps] as the store files them, the first under [n] and each
    next one under the next identifier. *)
Fixpoint filed (n : Oid.ObjectId) (ps : list doc) : list doc :=
  match ps with
  | [] => []
  | p :: rest => <["_id" := VOid n]> p :: filed (N.succ n) rest
  end.

(** The store after the records [ps] were appended to [name] one by one. *)
Definition appended (name : string) (ps : list doc) (d : Database) : Database :=
  foldl (λ d' p, Driver.append d' name p) d ps.

(** The six keys of the diagnostic answer. *)
Definition status_keys : gset string :=
  {[ "backend"; "database"; "database_url"; "database_name";
     "connection_status"; "collections" ]}.

(** A database with no collection yet. *)
Definition empty_db : Database :=
  {| db_name := Some "shop"; db_colls := ∅; db_listing := [];
     db_next_oid := 0%N; db_fault := None |}.

(** A database whose server is down. *)
Definition unreachable_db : Database :=
  {| db_name := Some "shop"; db_colls := ∅; db_listing := [];
     db_next_oid := 0%N;
     db_fault := Some "localhost:27017: [Errno 111] Connection refused" |}.

(** A product collection that another program filled, keyed by text. *)
Definition legacy_doc : doc :=
  {[ "_id" := VStr "sku-1"; "title" := VStr "Poster" ]}.

Definition legacy_db : Database :=
  {| db_name := Some "shop"; db_colls := {[ "product" := [legacy_doc] ]};
     db_listing := ["product"]; db_next_oid := 0%N; db_fault := None |}.

Definition mug : Product :=
  {| title := "Ceramic Mug"; description := "12oz glazed mug";
     price := 14; category := "Home"; in_stock := true; image := "mug.png" |}.

(** A heap with one stored product at location 1. *)
Definition stored_mug : doc := <["_id" := VOid 7%N]> (Product_dump mug).

Definition one_dict : Heap.heap := {[ 1%positive := stored_mug ]}.

(** An order for a product that no store holds. *)
Definition stray_order : Order :=
  {[ "product_id" := VStr "ffffffffffffffffffffffff"; "quantity" := VInt 2 ]}.

(** The entry under [k] of the dictionary a call returned. *)
Definition entry {E} (k : string) (r : outcome E doc) : option value :=
  match r with
  | Returns m => m !! k
  | Raises _ => None
  end.

(** A stored product as [get_product] is asked for it: two documents of
    the shelf, the second with a stale ["id"] of its own. *)
Definition stale_doc : doc :=
  {[ "_id" := VOid 11%N; "id" := VStr "old"; "title" := VStr "Lamp" ]}.

Definition shelf_db : Database :=
  {| db_name := None;
     db_colls := {[ "product" := [stored_mug; stale_doc] ]};
     db_listing := ["product"]; db_next_oid := 12%N; db_fault := None |}.

(** ** Lemmas on text and identifiers *)

Lemma PyStr_len_take (n : nat) (s : string) :
  PyStr.len (PyStr.take n s) <= n.
Proof.
  revert n. induction s as [|a r IH]; intros n; simpl; [lia|].
  destruct (PyStr.is_continuation a) eqn:Hc; simpl.
  - rewrite Hc. apply IH.
  - destruct n as [|n']; simpl; [lia|].
    rewrite Hc. specialize (IH n'). lia.
Qed.

Lemma PyStr_len_ascii (s : string) :
  PyStr.all_chars PyStr.is_ascii_char s = true -> PyStr.len s = String.length s.
Proof.
  induction s as [|a r IH]; simpl; [done|].
  intros [Ha Hr]%andb_prop.
  assert (PyStr.is_continuation a = false) as ->.
  { unfold PyStr.is_continuation, PyStr.is_ascii_char in *.
    apply N.ltb_lt in Ha. apply andb_false_iff. left. apply N.leb_gt. lia. }
  by rewrite IH.
Qed.

Lemma hex_value_digit (d : N) :
  (d < 16)%N -> Oid.hex_value (Oid.hex_digit d) = Some d.
Proof.
  intros Hd.
  assert (d ∈ (N.of_nat <$> seq 0 16)) as Hin.
  { apply list_elem_of_fmap. exists (N.to_nat d). split; [lia|].
    apply elem_of_seq. lia. }
  vm_compute in Hin.
  repeat (apply elem_of_cons in Hin as [->|Hin]; [reflexivity|]).
  by apply elem_of_nil in Hin.
Qed.

Lemma hex_digit_ascii (d : N) :
  (d < 16)%N -> PyStr.is_ascii_char (Oid.hex_digit d) = true.
Proof.
  intros Hd.
  assert (d ∈ (N.of_nat <$> seq 0 16)) as Hin.
  { apply list_elem_of_fmap. exists (N.to_nat d). split; [lia|].
    apply elem_of_seq. lia. }
  vm_compute in Hin.
  repeat (apply elem_of_cons in Hin as [->|Hin]; [reflexivity|]).
  by apply elem_of_nil in Hin.
Qed.

Lemma to_hex_length (k : nat) (n : N) : String.length (Oid.to_hex k n) = k.
Proof. induction k as [|k IH]; simpl; [done|]. by rewrite IH. Qed.

Lemma to_hex_ascii (k : nat) (n : N) :
  PyStr.all_chars PyStr.is_ascii_char (Oid.to_hex k n) = true.
Proof.
  induction k as [|k IH]; simpl; [done|].
  rewrite IH, andb_true_r. apply hex_digit_ascii.
  apply N.mod_lt. lia.
Qed.

Lemma hex_digit_not_space (d : N) :
  (d < 16)%N -> Oid.is_space (Oid.hex_digit d) = false.
Proof.
  intros Hd.
  assert (d ∈ (N.of_nat <$> seq 0 16)) as Hin.
  { apply list_elem_of_fmap. exists (N.to_nat d). split; [lia|].
    apply elem_of_seq. lia. }
  vm_compute in Hin.
  repeat (apply elem_of_cons in Hin as [->|Hin]; [reflexivity|]).
  by apply elem_of_nil in Hin.
Qed.

(** Two digits of the rendering are one byte. *)
Lemma byte_of_digits (n : N) (j : nat) :
  (((n / 16 ^ N.of_nat (S (2 * j))) mod 16) * 16
   + (n / 16 ^ N.of_nat (2 * j)) mod 16
   = (n / 256 ^ N.of_nat j) mod 256)%N.
Proof.
  replace (N.of_nat (S (2 * j))) with (N.succ (N.of_nat (2 * j))) by lia.
  rewrite N.pow_succ_r'.
  replace (N.of_nat (2 * j)) with (2 * N.of_nat j)%N by lia.
  rewrite N.pow_mul_r. change (16 ^ 2)%N with 256%N.
  rewrite (N.mul_comm 16), <- N.Div0.div_div.
  set (m := (n / 256 ^ N.of_nat j)%N).
  change 256%N with (16 * 16)%N.
  rewrite N.Div0.mod_mul_r. lia.
Qed.

Lemma fromhex_to_hex (j : nat) (n : N) :
  Oid.fromhex (Oid.to_hex (2 * j) n) = Some (Oid.to_bytes j n).
Proof.
  induction j as [|j IH]; [done|].
  replace (2 * S j) with (S (S (2 * j))) by lia.
  cbn [Oid.to_hex Oid.fromhex Oid.to_bytes].
  rewrite hex_digit_not_space by (apply N.mod_lt; lia).
  rewrite !hex_value_digit by (apply N.mod_lt; lia).
  rewrite IH. cbn [fmap option_fmap option_map].
  by rewrite byte_of_digits.
Qed.

Lemma to_bytes_length (k : nat) (n : N) : length (Oid.to_bytes k n) = k.
Proof. induction k as [|k IH]; simpl; [done|]. by rewrite IH. Qed.

Lemma foldl_to_bytes (k : nat) (n acc : N) :
  foldl (λ a b, a * 256 + b)%N acc (Oid.to_bytes k n)
  = (acc * 256 ^ N.of_nat k + n mod 256 ^ N.of_nat k)%N.
Proof.
  revert acc. induction k as [|k IH]; intros acc.
  - simpl. rewrite N.mod_1_r. lia.
  - cbn [Oid.to_bytes foldl]. rewrite IH.
    replace (N.of_nat (S k)) with (N.succ (N.of_nat k)) by lia.
    rewrite N.pow_succ_r'.
    rewrite (N.mul_comm 256 (256 ^ N.of_nat k)).
    rewrite (N.Div0.mod_mul_r n (256 ^ N.of_nat k) 256).
    lia.
Qed.

(** [ObjectId(str(oid))] holds the bytes of [oid]. *)
Lemma parse_to_str (o : Oid.ObjectId) :
  Oid.parse (Oid.to_str o) = Some (Oid.binary o).
Proof.
  unfold Oid.parse, Oid.to_str.
  rewrite PyStr_len_ascii by apply to_hex_ascii.
  rewrite to_hex_length. simpl Nat.eqb. cbv iota.
  apply (fromhex_to_hex 12).
Qed.

(** The bytes of a 12-byte identifier are that identifier's. *)
Lemma of_bytes_binary (o : Oid.ObjectId) :
  (o < Oid.bound)%N -> Oid.of_bytes (Oid.binary o) = Some o.
Proof.
  intros Ho. unfold Oid.of_bytes, Oid.binary, Oid.number.
  rewrite to_bytes_length. simpl Nat.eqb. cbv iota.
  rewrite foldl_to_bytes.
  change (256 ^ N.of_nat 12)%N with Oid.bound.
  rewrite N.mod_small by done. f_equal.
Qed.

(** ** Running the handlers *)

(** C4: with no store configured, listing answers with the empty sequence
    and creating a product answers with the 500 error, whatever the request
    carries. *)
Theorem unconfigured_list_empty_create_500 (product : Product) :
  list_products None = (Returns [], None)
  ∧ create_product product None
    = (Raises (HTTPException 500 "Database not configured"), None)
  ∧ http_status str_model (create_product product None).1 = 500%Z.
Proof.
  split; [|split].
  - unfold list_products, mbind, SE_bind, get_state. reflexivity.
  - unfold create_product, mbind, SE_bind, get_state, raise. reflexivity.
  - reflexivity.
Qed.

(** ** The store *)

Lemma truthy_lookup (x : doc) (k : string) (v : value) :
  x !! k = Some v -> truthy x = true.
Proof.
  intros Hk. unfold truthy. apply negb_true_iff, Nat.eqb_neq.
  intros Hsz%map_size_empty_iff. subst x. by rewrite lookup_empty in Hk.
Qed.

Lemma truthy_empty : truthy (∅ : doc) = false.
Proof. unfold truthy. by rewrite map_size_empty. Qed.

Lemma has_id_true (o : Oid.ObjectId) (x : doc) :
  Driver.has_id o x = true <-> x !! "_id" = Some (VOid o).
Proof.
  unfold Driver.has_id. destruct (x !! "_id") as [[]|]; try (split; done).
  rewrite N.eqb_eq. split; [by intros ->|by intros [= ->]].
Qed.

Lemma find_no_match (o : Oid.ObjectId) (l : list doc) :
  Forall (λ x, x !! "_id" ≠ Some (VOid o)) l ->
  List.find (Driver.has_id o) l = None.
Proof.
  induction 1 as [|x l Hx _ IH]; simpl; [done|].
  destruct (Driver.has_id o x) eqn:Hid; [|done].
  by apply has_id_true in Hid.
Qed.

Lemma find_appended (o : Oid.ObjectId) (l : list doc) (x : doc) :
  Forall (λ y, y !! "_id" ≠ Some (VOid o)) l ->
  x !! "_id" = Some (VOid o) ->
  List.find (Driver.has_id o) (l ++ [x]) = Some x.
Proof.
  intros Hl Hx. induction Hl as [|y l Hy _ IH]; simpl.
  - by apply has_id_true in Hx as ->.
  - destruct (Driver.has_id o y) eqn:Hid; [|done].
    by apply has_id_true in Hid.
Qed.

Lemma find_some_keyed (o : Oid.ObjectId) (l : list doc) (x : doc) :
  List.find (Driver.has_id o) l = Some x -> x !! "_id" = Some (VOid o).
Proof. intros [_ Hx]%find_some. by apply has_id_true. Qed.

Lemma ids_below_fresh (n : Oid.ObjectId) (l : list doc) :
  ids_below n l -> Forall (λ x, x !! "_id" ≠ Some (VOid n)) l.
Proof.
  intros Hl. eapply Forall_impl; [exact Hl|].
  intros x (o & Hx & Ho) Hn.
  rewrite Hx in Hn. injection Hn as ->. lia.
Qed.

Lemma collection_ids_below (d : Database) (name : string) :
  wf_db d -> ids_below (db_next_oid d) (Driver.collection d name).
Proof.
  intros Hwf. unfold Driver.collection.
  destruct (db_colls d !! name) as [l|] eqn:Hl; simpl.
  - by eapply Hwf.
  - constructor.
Qed.

Lemma collection_append (d : Database) (name : string) (r : doc) :
  Driver.collection (Driver.append d name r) name
  = Driver.collection d name ++ [<["_id" := VOid (db_next_oid d)]> r].
Proof. unfold Driver.collection at 1. simpl. by rewrite lookup_insert_eq. Qed.

Lemma collection_append_ne (d : Database) (name name' : string) (r : doc) :
  name ≠ name' ->
  Driver.collection (Driver.append d name r) name' = Driver.collection d name'.
Proof.
  intros Hne. unfold Driver.collection at 1. simpl.
  by rewrite lookup_insert_ne.
Qed.

Lemma wf_db_empty : wf_db empty_db.
Proof. intros name l Hl. simpl in Hl. by rewrite lookup_empty in Hl. Qed.

(** Appending a record keeps the invariant: the new identifier is the one
    just handed out, the others stay below it. *)
Lemma wf_db_append (d : Database) (name : string) (r : doc) :
  wf_db d -> wf_db (Driver.append d name r).
Proof.
  intros Hwf name' l. simpl.
  assert (∀ l0, ids_below (db_next_oid d) l0 ->
                ids_below (N.succ (db_next_oid d)) l0) as Hup.
  { intros l0 Hl0. eapply Forall_impl; [exact Hl0|].
    intros x (o & Hx & Ho). exists o. split; [done|lia]. }
  destruct (decide (name = name')) as [<-|Hne].
  - rewrite lookup_insert_eq. intros [= <-].
    apply Forall_app. split.
    + by apply Hup, collection_ids_below.
    + constructor; [|constructor].
      exists (db_next_oid d). rewrite lookup_insert_eq. split; [done|lia].
  - rewrite lookup_insert_ne by done. intros Hl. by eapply Hup, Hwf.
Qed.

(** ** [serialize_doc] *)

Lemma serialize_doc_keyed (x : doc) (o : Oid.ObjectId) :
  x !! "_id" = Some (VOid o) ->
  serialize_doc x = delete "_id" (<["id" := VStr (Oid.to_str o)]> x).
Proof.
  intros Hx. unfold serialize_doc.
  by rewrite (truthy_lookup _ _ _ Hx), Hx.
Qed.

Lemma serialize_doc_client_record (x : doc) :
  oid_keyed x -> client_record (serialize_doc x).
Proof.
  intros [o Hx]. rewrite (serialize_doc_keyed _ _ Hx). split.
  - exists (Oid.to_str o).
    rewrite lookup_delete_ne by done. apply lookup_insert_eq.
  - apply lookup_delete_eq.
Qed.

Lemma serialize_doc_unkeyed (d : doc) :
  ¬ oid_keyed d -> serialize_doc d = d.
Proof.
  intros Hd. unfold serialize_doc.
  destruct (negb (truthy d)); [done|].
  destruct (d !! "_id") as [[| | | | |o| |]|] eqn:Hid; try done.
  destruct Hd. by exists o.
Qed.

(** What is read back of a record stored under a new identifier. *)
Lemma serialize_doc_stored (r : doc) (o : Oid.ObjectId) :
  r !! "_id" = None ->
  serialize_doc (<["_id" := VOid o]> r) = <["id" := VStr (Oid.to_str o)]> r.
Proof.
  intros Hr.
  rewrite (serialize_doc_keyed _ o) by apply lookup_insert_eq.
  rewrite delete_insert_ne by done.
  by rewrite delete_insert_eq, delete_id.
Qed.

Lemma Product_dump_no_id (p : Product) : Product_dump p !! "_id" = None.
Proof. reflexivity. Qed.

(** ** The product handlers *)

(** [get_product] on a configured store, case by case. *)
Lemma get_product_configured (product_id : string) (d : Database) :
  get_product product_id (Some d)
  = match Oid.parse product_id with
    | None => (Raises (HTTPException 400 "Invalid product id"), Some d)
    | Some bs =>
        match db_fault d with
        | Some _ => (Raises (HTTPException 400 "Invalid product id"), Some d)
        | None =>
            match o ← Oid.of_bytes bs;
                  List.find (Driver.has_id o) (Driver.collection d "product") with
            | Some x => (Returns (serialize_doc x), Some d)
            | None => (Raises (HTTPException 404 "Product not found"), Some d)
            end
        end
    end.
Proof.
  unfold get_product, mbind at 1 2, SE_bind, get_state, try_except, driver,
    call, raise.
  destruct (Oid.parse product_id) as [bs|]; [|done].
  unfold Driver.find_one, Driver.round_trip.
  destruct (db_fault d); [done|].
  destruct (Oid.of_bytes bs) as [o|]; [|done]. simpl.
  destruct (List.find _ _) as [x|] eqn:Hfind; [|done].
  apply find_some_keyed in Hfind.
  by rewrite (truthy_lookup _ _ _ Hfind).
Qed.

Lemma create_document_working (name : string) (data : doc) (d : Database) :
  db_fault d = None ->
  create_document name data (Some d)
  = (Returns (Oid.to_str (db_next_oid d)), Some (Driver.append d name data)).
Proof. intros Hd. unfold create_document. by rewrite Hd. Qed.

(** C1: on a working store with identifiers left, [create_product] returns
    an identifier under which [get_product] then returns the payload's
    record with the one more field ["id"], set to that identifier. *)
Theorem create_product_then_get_product (P : Product) (d : Database) :
  Product_valid P ->
  wf_db d ->
  db_fault d = None ->
  (db_next_oid d < Oid.bound)%N ->
  ∃ (I : string) (db' : Store),
    create_product P (Some d) = (Returns I, db')
    ∧ get_product I db'
      = (Returns (<["id" := VStr I]> (Product_dump P)), db').
Proof.
  intros _ Hwf Hfault Hleft.
  exists (Oid.to_str (db_next_oid d)),
         (Some (Driver.append d "product" (Product_dump P))).
  split.
  - unfold create_product, mbind, SE_bind, get_state.
    by rewrite create_document_working.
  - rewrite get_product_configured, parse_to_str, of_bytes_binary by done.
    simpl db_fault. rewrite Hfault. simpl. rewrite collection_append.
    rewrite (find_appended _ _ (<["_id" := VOid (db_next_oid d)]> (Product_dump P))).
    + by rewrite serialize_doc_stored.
    + by apply ids_below_fresh, collection_ids_below.
    + apply lookup_insert_eq.
Qed.

Section ProductRoutes.

Variable Product_validate : doc -> option Product.
Variable str_validate : value -> option string.

Local Abbreviation ProductOut_response :=
  (ProductOut_model Product_validate str_validate).

(** C2, on a configured store: an identifier that [ObjectId] rejects is
    answered with 400, whatever the store holds and whether or not its
    server answers. *)
Theorem get_product_invalid_id_400 (product_id : string) (d : Database) :
  Oid.parse product_id = None ->
  get_product product_id (Some d)
  = (Raises (HTTPException 400 "Invalid product id"), Some d)
  ∧ http_status ProductOut_response (get_product product_id (Some d)).1 = 400%Z.
Proof. intros Hbad. by rewrite get_product_configured, Hbad. Qed.

(** C6: on a working store, a well-formed identifier that no stored product
    carries is answered with 404.  The identifier is one that [ObjectId]
    accepts; no stored product carries it when its bytes are not twelve. *)
Theorem get_product_unknown_id_404 (product_id : string) (bs : list N)
    (d : Database) :
  db_fault d = None ->
  Oid.parse product_id = Some bs ->
  Forall (λ x, ∀ o, Oid.of_bytes bs = Some o -> x !! "_id" ≠ Some (VOid o))
    (Driver.collection d "product") ->
  get_product product_id (Some d)
  = (Raises (HTTPException 404 "Product not found"), Some d)
  ∧ http_status ProductOut_response (get_product product_id (Some d)).1 = 404%Z.
Proof.
  intros Hfault Hparse Hnone.
  rewrite get_product_configured, Hparse, Hfault.
  destruct (Oid.of_bytes bs) as [o|]; simpl; [|done].
  rewrite find_no_match; [done|].
  eapply Forall_impl; [exact Hnone|]. intros x Hx. by apply Hx.
Qed.

End ProductRoutes.

(** C2 as stated fails with no store configured: the guard on [db] comes
    before the identifier is looked at, and the answer is 500. *)
Lemma get_product_invalid_id_unconfigured_500 :
  Oid.parse "not-an-id" = None
  ∧ get_product "not-an-id" None
    = (Raises (HTTPException 500 "Database not configured"), None)
  ∧ http_status (ProductOut_model Product_strict str_strict)
      (get_product "not-an-id" None).1 = 500%Z.
Proof. done. Qed.

(** ** Seeding and orders *)

Lemma appended_fault (name : string) (ps : list doc) (d : Database) :
  db_fault (appended name ps d) = db_fault d.
Proof.
  revert d. induction ps as [|p ps IH]; intros d; [done|].
  unfold appended in *. simpl. by rewrite IH.
Qed.

Lemma appended_collection (name : string) (ps : list doc) (d : Database) :
  Driver.collection (appended name ps d) name
  = Driver.collection d name ++ filed (db_next_oid d) ps.
Proof.
  revert d. induction ps as [|p ps IH]; intros d.
  - simpl. by rewrite app_nil_r.
  - unfold appended in *. simpl foldl. rewrite IH, collection_append.
    by rewrite <- app_assoc.
Qed.

Lemma appended_collection_ne (name name' : string) (ps : list doc) (d : Database) :
  name ≠ name' ->
  Driver.collection (appended name ps d) name' = Driver.collection d name'.
Proof.
  intros Hne. revert d. induction ps as [|p ps IH]; intros d; [done|].
  unfold appended in *. simpl foldl. by rewrite IH, collection_append_ne.
Qed.

Lemma wf_db_appended (name : string) (ps : list doc) (d : Database) :
  wf_db d -> wf_db (appended name ps d).
Proof.
  revert d. induction ps as [|p ps IH]; intros d Hwf; [done|].
  unfold appended in *. simpl foldl. by apply IH, wf_db_append.
Qed.

(** The loop of [seed_products] on a working store: every record is filed
    and counted. *)
Lemma seed_loop_working (ps : list doc) (inserted : Z) (d : Database) :
  db_fault d = None ->
  seed_loop ps inserted (Some d)
  = (Returns (inserted + Z.of_nat (length ps))%Z, Some (appended "product" ps d)).
Proof.
  revert inserted d. induction ps as [|p ps IH]; intros inserted d Hd.
  - simpl. unfold mret, SE_ret. do 2 f_equal. lia.
  - cbn [seed_loop]. unfold mbind, SE_bind.
    rewrite create_document_working by done.
    rewrite IH by done. cbn [length]. do 2 f_equal. lia.
Qed.

Lemma seed_products_run (d : Database) :
  db_fault d = None ->
  seed_products (Some d)
  = if (0 <? Z.of_nat (length (Driver.collection d "product")))%Z
    then (Returns {[ "inserted" := VInt 0;
                     "message" := VStr "Products already exist" ]}, Some d)
    else (Returns {[ "inserted" := VInt 4 ]}, Some (appended "product" samples d)).
Proof.
  intros Hd.
  unfold seed_products, mbind, SE_bind, get_state, driver, call.
  unfold Driver.count_documents, Driver.round_trip. rewrite Hd.
  destruct (0 <? _)%Z; [done|].
  by rewrite seed_loop_working.
Qed.

(** C3: on a working store whose product collection is empty, the first
    [seed_products] files the 4 sample records and reports 4 inserted; the
    second one reports 0 inserted and leaves the store as it was. *)
Theorem seed_products_twice (d : Database) :
  db_fault d = None ->
  Driver.collection d "product" = [] ->
  seed_products (Some d)
  = (Returns {[ "inserted" := VInt 4 ]}, Some (appended "product" samples d))
  ∧ Driver.collection (appended "product" samples d) "product"
    = filed (db_next_oid d) samples
  ∧ length (Driver.collection (appended "product" samples d) "product") = 4
  ∧ seed_products (Some (appended "product" samples d))
    = (Returns {[ "inserted" := VInt 0;
                  "message" := VStr "Products already exist" ]},
       Some (appended "product" samples d)).
Proof.
  intros Hd Hempty.
  assert (Driver.collection (appended "product" samples d) "product"
          = filed (db_next_oid d) samples) as Hcoll.
  { by rewrite appended_collection, Hempty. }
  split; [|split; [|split]].
  - by rewrite seed_products_run, Hempty.
  - done.
  - by rewrite Hcoll.
  - rewrite seed_products_run by (by rewrite appended_fault).
    by rewrite Hcoll.
Qed.

(** C7: on a working store, [create_order] files whatever record it is
    given and returns the text of the new identifier; the product
    collection is neither consulted nor changed. *)
Theorem create_order_files_any_order (order : Order) (d : Database) :
  db_fault d = None ->
  create_order order (Some d)
  = (Returns (Oid.to_str (db_next_oid d)), Some (Driver.append d "order" order))
  ∧ Driver.collection (Driver.append d "order" order) "order"
    = Driver.collection d "order" ++ [<["_id" := VOid (db_next_oid d)]> order]
  ∧ Driver.collection (Driver.append d "order" order) "product"
    = Driver.collection d "product".
Proof.
  intros Hd. split; [|split].
  - unfold create_order, mbind, SE_bind, get_state.
    by rewrite create_document_working.
  - apply collection_append.
  - by apply collection_append_ne.
Qed.

(** C10: each of the 4 sample records has the field set of a product, and
    keeps it under the identifier it is filed with. *)
Theorem samples_have_product_fields :
  length samples = 4
  ∧ Forall (λ p, has_product_fields p = true
                 ∧ ∀ o, has_product_fields (<["_id" := VOid o]> p) = true)
      samples.
Proof.
  split; [reflexivity|].
  unfold samples. repeat apply Forall_cons_2; try apply Forall_nil_2.
  all: split; [reflexivity|intros o; reflexivity].
Qed.

(** ** Records as clients see them *)

Lemma list_products_run (d : Database) :
  db_fault d = None ->
  list_products (Some d)
  = (Returns (serialize_doc <$> Driver.collection d "product"), Some d).
Proof.
  intros Hd. unfold list_products, mbind, SE_bind, get_state, get_documents.
  by rewrite Hd.
Qed.

Lemma list_products_returns (db : Store) (rs : list doc) (db' : Store) :
  list_products db = (Returns rs, db') ->
  db' = db
  ∧ match db with
    | None => rs = []
    | Some d => rs = serialize_doc <$> Driver.collection d "product"
    end.
Proof.
  destruct db as [d|].
  - unfold list_products, mbind, SE_bind, get_state, get_documents.
    destruct (db_fault d); [done|]. by intros [= <- <-].
  - by intros [= <- <-].
Qed.

Lemma get_product_returns (product_id : string) (db : Store) (r : doc)
    (db' : Store) :
  get_product product_id db = (Returns r, db') ->
  ∃ x, oid_keyed x ∧ r = serialize_doc x.
Proof.
  destruct db as [d|]; [|done].
  rewrite get_product_configured.
  destruct (Oid.parse product_id) as [bs|]; [|done].
  destruct (db_fault d); [done|].
  destruct (Oid.of_bytes bs) as [o|]; simpl; [|done].
  destruct (List.find _ _) as [x|] eqn:Hfind; [|done].
  intros [= <- _]. exists x. split; [|done].
  exists o. by eapply find_some_keyed.
Qed.

Lemma ProductOut_dump_client_record (o : ProductOut) :
  client_record (ProductOut_dump o).
Proof.
  unfold ProductOut_dump. split.
  - eexists. apply lookup_insert_eq.
  - rewrite lookup_insert_ne by done. apply Product_dump_no_id.
Qed.

Lemma answer_returns {A B} (response_model : A -> option B)
    (r : outcome exn A) (b : B) :
  answer response_model r = Returns b ->
  ∃ a, r = Returns a ∧ response_model a = Some b.
Proof.
  destruct r as [a|e]; simpl; [|done].
  destruct (response_model a) as [b'|] eqn:Ha; [|done].
  intros [= <-]. by exists a.
Qed.

Section ClientRecords.

Variable Product_validate : doc -> option Product.
Variable str_validate : value -> option string.

Local Abbreviation ProductOut_response :=
  (ProductOut_model Product_validate str_validate).
Local Abbreviation ProductOut_list_response :=
  (ProductOut_list_model Product_validate str_validate).

Lemma ProductOut_model_client_record (r b : doc) :
  ProductOut_response r = Some b -> client_record b.
Proof.
  unfold ProductOut_model. destruct (r !! "id") as [v|]; [|done].
  destruct (str_validate v) as [i|]; [|done]. simpl.
  destruct (Product_validate r) as [q|]; [|done]. simpl.
  intros [= <-]. apply ProductOut_dump_client_record.
Qed.


(** A stored document whose ["_id"] is not an [ObjectId] comes back from
    [list_products] as it is, without an ["id"]: the route answers 500. *)
Lemma list_products_foreign_id_500 :
  list_products (Some legacy_db) = (Returns [legacy_doc], Some legacy_db)
  ∧ legacy_doc !! "_id" = Some (VStr "sku-1")
  ∧ legacy_doc !! "id" = None
  ∧ http_status ProductOut_list_response (list_products (Some legacy_db)).1
    = 500%Z.
Proof. repeat split; reflexivity. Qed.

End ClientRecords.

(** ** The diagnostic endpoint *)

(** C8: [test_database] returns a status object in every state of the store
    and of the environment.  When the store's round trip raises, the
    exception ends up as text in the ["database"] entry, cut to its first 50
    characters. *)
Theorem test_database_never_fails (db : Store) (environ : gmap string string) :
  ∃ response : doc,
    test_database db environ = Returns response
    ∧ dom response = status_keys
    ∧ match db with
      | None =>
          response !! "database"
          = Some (VStr "⚠️  Available but not initialized")
      | Some d =>
          match db_fault d with
          | None =>
              response !! "database" = Some (VStr "✅ Connected & Working")
          | Some text =>
              response !! "database"
              = Some (VStr ("⚠️  Connected but Error: " +:+ PyStr.take 50 text))
              ∧ PyStr.len (PyStr.take 50 text) <= 50
          end
      end.
Proof.
  destruct db as [d|].
  - unfold test_database, Driver.list_collection_names, Driver.round_trip.
    destruct (db_fault d) as [text|] eqn:Hfault.
    + eexists. split; [reflexivity|]. split; [|split].
      * rewrite !dom_insert_L. unfold status_keys. set_solver.
      * reflexivity.
      * apply PyStr_len_take.
    + eexists. split; [reflexivity|]. split.
      * rewrite !dom_insert_L. unfold status_keys. set_solver.
      * reflexivity.
  - eexists. split; [reflexivity|]. split.
    + rewrite !dom_insert_L. unfold status_keys. set_solver.
    + reflexivity.
Qed.

(** ** [serialize_doc] and the dictionary it is given *)

Lemma new_dict_fresh (m : doc) (h : Heap.heap) :
  h !! (Heap.new_dict m h).1 = None.
Proof. simpl. apply not_elem_of_dom, is_fresh. Qed.

(** The updates of [serialize_doc] through the copy's location leave every
    other location alone and produce the value of [serialize_doc]. *)
Lemma heap_serialize_doc_dict (h : Heap.heap) (l : Heap.loc) (m : doc) :
  h !! l = Some m ->
  ∃ l' h',
    Heap.serialize_doc (Heap.RDict l) h = Some (Heap.RDict l', h')
    ∧ h' !! l' = Some (serialize_doc m)
    ∧ ∀ l0 m0, h !! l0 = Some m0 -> h' !! l0 = Some m0.
Proof.
  intros Hl. unfold Heap.serialize_doc. rewrite Hl. simpl.
  unfold serialize_doc.
  destruct (truthy m) eqn:Hm; simpl.
  - pose proof (new_dict_fresh m h) as Hfresh. simpl in Hfresh.
    set (l' := fresh (dom h)) in *.
    assert (∀ l0 m0, h !! l0 = Some m0 -> l' ≠ l0) as Hne.
    { intros l0 m0 H0 <-. by rewrite Hfresh in H0. }
    unfold Heap.getitem. rewrite lookup_insert_eq. simpl.
    destruct (m !! "_id") as [[| | | | |o| |]|] eqn:Hid;
      try (eexists l', _; split; [reflexivity|]; split;
           [apply lookup_insert_eq
           |intros k mk Hk; rewrite lookup_insert_ne; [done|by eapply Hne]]).
    eexists l', _. split; [reflexivity|]. split.
    + unfold Heap.delitem, Heap.setitem.
      by rewrite !lookup_alter_eq, lookup_insert_eq.
    + intros l0 m0 H0. unfold Heap.delitem, Heap.setitem.
      rewrite !lookup_alter_ne by (by eapply Hne).
      rewrite lookup_insert_ne; [done|by eapply Hne].
  - by exists l, h.
Qed.

(** C9: [serialize_doc] leaves the dictionary it is given, and every other
    live dictionary, with the items it had: its updates go to the copy. *)
Theorem serialize_doc_leaves_input (h : Heap.heap) (r : Heap.ref) :
  live h r ->
  ∃ r' h',
    Heap.serialize_doc r h = Some (r', h')
    ∧ (∀ l m, h !! l = Some m -> h' !! l = Some m)
    ∧ match r with
      | Heap.RNone => r' = Heap.RNone ∧ h' = h
      | Heap.RDict l =>
          ∃ l' m, r' = Heap.RDict l' ∧ h !! l = Some m
                  ∧ h' !! l = Some m ∧ h' !! l' = Some (serialize_doc m)
      end.
Proof.
  destruct r as [|l]; simpl.
  - intros _. by exists Heap.RNone, h.
  - intros [m Hl].
    destruct (heap_serialize_doc_dict h l m Hl) as (l' & h' & Hrun & Hnew & Hold).
    exists (Heap.RDict l'), h'. split; [done|]. split; [done|].
    exists l', m. eauto.
Qed.

(** ** The invariant along the handlers *)

(** The handlers that write keep the store's invariant. *)
Lemma writers_keep_wf_db (d : Database) :
  wf_db d ->
  (∀ P r d', create_product P (Some d) = (r, Some d') -> wf_db d')
  ∧ (∀ order r d', create_order order (Some d) = (r, Some d') -> wf_db d')
  ∧ (∀ r d', seed_products (Some d) = (r, Some d') -> wf_db d').
Proof.
  intros Hwf. split; [|split].
  - intros P r d'. unfold create_product, create_document, mbind, SE_bind, get_state.
    destruct (db_fault d); intros [= _ <-]; [done|by apply wf_db_append].
  - intros order r d'. unfold create_order, create_document, mbind, SE_bind, get_state.
    destruct (db_fault d); intros [= _ <-]; [done|by apply wf_db_append].
  - intros r d'. destruct (db_fault d) as [text|] eqn:Hd.
    + unfold seed_products, mbind, SE_bind, get_state, driver, call.
      unfold Driver.count_documents, Driver.round_trip. rewrite Hd.
      by intros [= _ <-].
    + rewrite seed_products_run by done.
      destruct (0 <? _)%Z; intros [= _ <-]; [done|].
      exact (wf_db_appended "product" samples d Hwf).
Qed.

(** ** The theorems at sample inputs *)

Lemma create_product_then_get_product_witness :
  ∃ (I : string) (db' : Store),
    create_product mug (Some empty_db) = (Returns I, db')
    ∧ get_product I db' = (Returns (<["id" := VStr I]> (Product_dump mug)), db').
Proof.
  apply (create_product_then_get_product mug empty_db).
  - reflexivity.
  - apply wf_db_empty.
  - reflexivity.
  - reflexivity.
Defined.

Lemma get_product_invalid_id_400_witness :
  Oid.parse "not-an-id" = None
  ∧ get_product "not-an-id" (Some unreachable_db)
    = (Raises (HTTPException 400 "Invalid product id"), Some unreachable_db).
Proof.
  split; [reflexivity|].
  apply (get_product_invalid_id_400 Product_strict str_strict
           "not-an-id" unreachable_db).
  reflexivity.
Defined.

Lemma seed_products_twice_witness :
  seed_products (Some empty_db)
  = (Returns {[ "inserted" := VInt 4 ]}, Some (appended "product" samples empty_db))
  ∧ seed_products (Some (appended "product" samples empty_db))
    = (Returns {[ "inserted" := VInt 0;
                  "message" := VStr "Products already exist" ]},
       Some (appended "product" samples empty_db)).
Proof.
  destruct (seed_products_twice empty_db) as (H1 & _ & _ & H2);
    [reflexivity|reflexivity|].
  exact (conj H1 H2).
Defined.

Lemma get_product_unknown_id_404_witness :
  http_status (ProductOut_model Product_strict str_strict)
    (get_product "000000000000000000000004"
       (Some (appended "product" samples empty_db))).1 = 404%Z.
Proof.
  apply (get_product_unknown_id_404 Product_strict str_strict
           "000000000000000000000004" (Oid.binary 4%N)
           (appended "product" samples empty_db)).
  - reflexivity.
  - reflexivity.
  - repeat constructor; intros o [= <-]; discriminate.
Defined.

(** A 24-character identifier with whitespace after its digits is accepted
    by [ObjectId], with fewer than twelve bytes: no stored product carries
    it, and the answer is 404 and not 400. *)
Example get_product_padded_id_404 :
  Oid.parse "00112233445566778899aa  "
  = Some [0; 17; 34; 51; 68; 85; 102; 119; 136; 153; 170]%N
  ∧ get_product "00112233445566778899aa  " (Some shelf_db)
    = (Raises (HTTPException 404 "Product not found"), Some shelf_db).
Proof. split; reflexivity. Qed.

Lemma create_order_files_any_order_witness :
  create_order stray_order (Some empty_db)
  = (Returns "000000000000000000000000",
     Some (Driver.append empty_db "order" stray_order)).
Proof.
  apply (create_order_files_any_order stray_order empty_db). reflexivity.
Defined.


Lemma serialize_doc_leaves_input_witness :
  ∃ r' h',
    Heap.serialize_doc (Heap.RDict 1%positive) one_dict = Some (r', h')
    ∧ h' !! 1%positive = Some stored_mug.
Proof.
  destruct (serialize_doc_leaves_input one_dict (Heap.RDict 1%positive))
    as (r' & h' & Hrun & Hold & _).
  - by eexists.
  - exists r', h'. split; [exact Hrun|]. by apply Hold.
Defined.

(** ** More on text and identifiers *)

Lemma PyStr_take_all (n : nat) (s : string) :
  PyStr.len s <= n -> PyStr.take n s = s.
Proof.
  revert n. induction s as [|a r IH]; intros n; simpl; [done|].
  destruct (PyStr.is_continuation a).
  - intros Hn. by rewrite IH.
  - destruct n as [|n']; [lia|]. intros Hn. rewrite IH; [done|lia].
Qed.

Lemma PyStr_take_prefix (n : nat) (s : string) :
  ∃ rest, s = PyStr.take n s +:+ rest.
Proof.
  revert n. induction s as [|a r IH]; intros n; simpl.
  - by exists "".
  - destruct (PyStr.is_continuation a).
    + destruct (IH n) as [rest Hrest]. exists rest.
      change (String a r = String a (PyStr.take n r +:+ rest)). by f_equal.
    + destruct n as [|n'].
      * by exists (String a r).
      * destruct (IH n') as [rest Hrest]. exists rest.
        change (String a r = String a (PyStr.take n' r +:+ rest)). by f_equal.
Qed.

Lemma hex_value_range (a : ascii) (d : N) :
  Oid.hex_value a = Some d -> (d < 16)%N ∧ PyStr.is_ascii_char a = true.
Proof.
  destruct a as [[] [] [] [] [] [] [] []]; vm_compute; intros [= <-]; done.
Qed.

Lemma fromhex_bytes (s : string) :
  (∀ bs, Oid.fromhex s = Some bs -> Forall (λ b, (b < 256)%N) bs)
  ∧ (∀ a bs, Oid.fromhex (String a s) = Some bs -> Forall (λ b, (b < 256)%N) bs).
Proof.
  induction s as [|b r [IH1 IH2]].
  - split.
    + intros bs [= <-]. constructor.
    + intros a bs. cbn [Oid.fromhex]. destruct (Oid.is_space a); [|done].
      intros [= <-]. constructor.
  - split; [apply IH2|].
    intros a bs. cbn [Oid.fromhex]. destruct (Oid.is_space a); [apply IH2|].
    destruct (Oid.hex_value a) as [top|] eqn:Ha; [|done].
    destruct (Oid.hex_value b) as [bot|] eqn:Hb; [|done].
    apply hex_value_range in Ha as [Ha _]. apply hex_value_range in Hb as [Hb _].
    destruct (Oid.fromhex r) as [bs'|] eqn:Hr; [|done].
    intros [= <-]. constructor; [lia|]. by apply IH1.
Qed.

Lemma foldl_number (acc : N) (bs : list N) :
  foldl (λ a b, a * 256 + b)%N acc bs
  = (acc * 256 ^ N.of_nat (length bs) + Oid.number bs)%N.
Proof.
  unfold Oid.number. revert acc. induction bs as [|b r IH]; intros acc.
  - simpl. lia.
  - cbn [foldl length]. rewrite (IH (acc * 256 + b)%N), (IH (0 * 256 + b)%N).
    replace (N.of_nat (S (length r))) with (N.succ (N.of_nat (length r))) by lia.
    rewrite N.pow_succ_r'. lia.
Qed.

Lemma number_lt (bs : list N) :
  Forall (λ b, (b < 256)%N) bs -> (Oid.number bs < 256 ^ N.of_nat (length bs))%N.
Proof.
  induction 1 as [|b r Hb _ IH]; [by vm_compute|].
  unfold Oid.number. cbn [foldl length]. rewrite foldl_number.
  replace (N.of_nat (S (length r))) with (N.succ (N.of_nat (length r))) by lia.
  rewrite N.pow_succ_r'. nia.
Qed.

(** The bytes of the number that bytes spell are those bytes. *)
Lemma to_bytes_number (bs : list N) (acc : N) :
  Forall (λ b, (b < 256)%N) bs ->
  Oid.to_bytes (length bs) (foldl (λ a b, a * 256 + b)%N acc bs) = bs.
Proof.
  intros Hbs. revert acc. induction Hbs as [|b r Hb Hr IH]; intros acc; [done|].
  cbn [foldl length Oid.to_bytes]. rewrite IH. f_equal.
  rewrite foldl_number.
  pose proof (number_lt r Hr) as Hlt.
  rewrite N.div_add_l by lia.
  rewrite N.div_small, N.add_0_r by done.
  rewrite N.add_comm, N.Div0.mod_add. by apply N.mod_small.
Qed.

(** What [ObjectId] accepts with twelve bytes is an identifier a store can
    hold, and the rendering of that identifier is accepted again with the
    same bytes. *)
Lemma parse_range (s : string) (bs : list N) (o : Oid.ObjectId) :
  Oid.parse s = Some bs ->
  Oid.of_bytes bs = Some o ->
  (o < Oid.bound)%N ∧ Oid.parse (Oid.to_str o) = Some bs.
Proof.
  intros Hparse Hbytes. unfold Oid.parse in Hparse. unfold Oid.of_bytes in Hbytes.
  destruct (Nat.eqb (PyStr.len s) 24); [|done].
  apply fromhex_bytes in Hparse.
  destruct (Nat.eqb (length bs) 12) eqn:Hlen; [|done].
  apply Nat.eqb_eq in Hlen. injection Hbytes as <-.
  pose proof (number_lt bs Hparse) as Hlt. rewrite Hlen in Hlt.
  split; [exact Hlt|].
  rewrite parse_to_str. f_equal.
  unfold Oid.binary, Oid.number. rewrite <- Hlen.
  by apply to_bytes_number.
Qed.

(** ** More on [serialize_doc] *)

Lemma serialize_doc_result_not_keyed (d : doc) : ¬ oid_keyed (serialize_doc d).
Proof.
  intros [o' Ho'].
  destruct (d !! "_id") as [[| | | | |o| |]|] eqn:Hid.
  all: try (rewrite serialize_doc_unkeyed in Ho';
            [by rewrite Hid in Ho'|intros [o2 Ho2]; by rewrite Hid in Ho2]).
  rewrite (serialize_doc_keyed _ _ Hid), lookup_delete_eq in Ho'. done.
Qed.

(** X1: serializing twice is serializing once. *)
Theorem serialize_doc_idempotent (d : doc) :
  serialize_doc (serialize_doc d) = serialize_doc d.
Proof. apply serialize_doc_unkeyed, serialize_doc_result_not_keyed. Qed.

(** X2: for a document keyed by an [ObjectId], the record has the text of
    the identifier under ["id"], in place of any ["id"] the document had,
    and every item under another key as it was. *)
Theorem serialize_doc_keyed_items (d : doc) (o : Oid.ObjectId) :
  d !! "_id" = Some (VOid o) ->
  serialize_doc d !! "id" = Some (VStr (Oid.to_str o))
  ∧ serialize_doc d !! "_id" = None
  ∧ ∀ k, k ≠ "id" -> k ≠ "_id" -> serialize_doc d !! k = d !! k.
Proof.
  intros Hd. rewrite (serialize_doc_keyed _ _ Hd). split; [|split].
  - rewrite lookup_delete_ne by done. apply lookup_insert_eq.
  - apply lookup_delete_eq.
  - intros k Hk1 Hk2.
    rewrite lookup_delete_ne by done. by rewrite lookup_insert_ne.
Qed.

(** X3: the documents [serialize_doc] hands back unchanged are exactly the
    ones with no [ObjectId] under ["_id"]. *)
Theorem serialize_doc_unchanged_iff (d : doc) :
  serialize_doc d = d <-> ¬ oid_keyed d.
Proof.
  split.
  - intros Hsame. rewrite <- Hsame. apply serialize_doc_result_not_keyed.
  - apply serialize_doc_unkeyed.
Qed.

(** X4: given a dictionary with items, [serialize_doc] returns a new object
    and not the one it was given; given an empty dictionary it returns that
    very object and allocates nothing. *)
Theorem heap_serialize_doc_identity (h : Heap.heap) (l : Heap.loc) (m : doc) :
  h !! l = Some m ->
  if truthy m
  then ∃ l' h', Heap.serialize_doc (Heap.RDict l) h = Some (Heap.RDict l', h')
                ∧ l' ≠ l ∧ h !! l' = None ∧ is_Some (h' !! l')
  else Heap.serialize_doc (Heap.RDict l) h = Some (Heap.RDict l, h).
Proof.
  intros Hl. unfold Heap.serialize_doc. rewrite Hl. simpl.
  destruct (truthy m) eqn:Hm; simpl; [|done].
  pose proof (new_dict_fresh m h) as Hfresh. simpl in Hfresh.
  set (l' := fresh (dom h)) in *.
  assert (l' ≠ l) as Hne by (intros ->; by rewrite Hfresh in Hl).
  unfold Heap.getitem. rewrite lookup_insert_eq. simpl.
  destruct (m !! "_id") as [[| | | | |o| |]|];
    try (eexists l', _; split; [reflexivity|];
         split; [done|]; split; [done|];
         rewrite lookup_insert_eq; by eexists).
  eexists l', _. split; [reflexivity|]. split; [done|]. split; [done|].
  unfold Heap.delitem, Heap.setitem.
  rewrite !lookup_alter_eq, lookup_insert_eq. by eexists.
Qed.

(** ** More on [get_product] *)

Lemma find_the_one (o : Oid.ObjectId) (l : list doc) (x : doc) :
  x ∈ l ->
  x !! "_id" = Some (VOid o) ->
  (∀ y, y ∈ l -> y !! "_id" = Some (VOid o) -> y = x) ->
  List.find (Driver.has_id o) l = Some x.
Proof.
  intros Hin Hx Huniq. induction l as [|y l IH]; [by apply elem_of_nil in Hin|].
  simpl. destruct (Driver.has_id o y) eqn:Hy.
  - apply has_id_true in Hy. f_equal. apply Huniq; [apply elem_of_cons; by left|done].
  - apply elem_of_cons in Hin as [->|Hin].
    + apply has_id_true in Hx. congruence.
    + apply IH; [done|]. intros z Hz. apply Huniq, elem_of_cons. by right.
Qed.

(** X6: while the server of a configured store cannot be reached,
    [get_product] answers 400 "Invalid product id" for every identifier,
    well-formed or not. *)
Theorem get_product_unreachable_400 (product_id text : string) (d : Database) :
  db_fault d = Some text ->
  get_product product_id (Some d)
  = (Raises (HTTPException 400 "Invalid product id"), Some d).
Proof.
  intros Hd. rewrite get_product_configured, Hd.
  by destruct (Oid.parse product_id).
Qed.

(** X7: a record that [get_product] returns is the serialized first stored
    product under the requested identifier, which [ObjectId] accepted with
    twelve bytes; its ["id"] is the lower-case rendering of that
    identifier, which [ObjectId] accepts again with the same bytes. *)
Theorem get_product_returns_canonical_id (product_id : string) (db : Store)
    (r : doc) (db' : Store) :
  get_product product_id db = (Returns r, db') ->
  ∃ d bs o x,
    db = Some d
    ∧ Oid.parse product_id = Some bs
    ∧ Oid.of_bytes bs = Some o
    ∧ List.find (Driver.has_id o) (Driver.collection d "product") = Some x
    ∧ r = serialize_doc x
    ∧ r !! "id" = Some (VStr (Oid.to_str o))
    ∧ Oid.parse (Oid.to_str o) = Some bs.
Proof.
  destruct db as [d|]; [|done].
  rewrite get_product_configured.
  destruct (Oid.parse product_id) as [bs|] eqn:Hparse; [|done].
  destruct (db_fault d); [done|].
  destruct (Oid.of_bytes bs) as [o|] eqn:Hbytes; simpl; [|done].
  destruct (List.find _ _) as [x|] eqn:Hfind; [|done].
  intros [= <- _]. exists d, bs, o, x.
  pose proof (find_some_keyed _ _ _ Hfind) as Hx.
  repeat split; try done.
  - rewrite (serialize_doc_keyed _ _ Hx), lookup_delete_ne by done.
    apply lookup_insert_eq.
  - by destruct (parse_range _ _ _ Hparse Hbytes).
Qed.

(** X8: on a working store, a stored product that alone carries its 12-byte
    identifier is returned, serialized, by [get_product] on the text of that
    identifier. *)
Theorem get_product_finds_stored (d : Database) (x : doc) (o : Oid.ObjectId) :
  db_fault d = None ->
  x ∈ Driver.collection d "product" ->
  x !! "_id" = Some (VOid o) ->
  (o < Oid.bound)%N ->
  (∀ y, y ∈ Driver.collection d "product" -> y !! "_id" = Some (VOid o) -> y = x) ->
  get_product (Oid.to_str o) (Some d) = (Returns (serialize_doc x), Some d).
Proof.
  intros Hd Hin Hx Ho Huniq.
  rewrite get_product_configured, parse_to_str, Hd, of_bytes_binary by done.
  simpl. by rewrite (find_the_one o _ x).
Qed.

Section MoreProductRoutes.

Variable Product_validate : doc -> option Product.
Variable str_validate : value -> option string.

Local Abbreviation ProductOut_response :=
  (ProductOut_model Product_validate str_validate).

(** X5: [get_product] writes nothing to the store and its route answers
    with one of 200, 400, 404 and 500; with 500 exactly when no store is
    configured or the record the handler returns does not fit
    [ProductOut]. *)
Theorem get_product_profile (product_id : string) (db : Store) :
  (get_product product_id db).2 = db
  ∧ http_status ProductOut_response (get_product product_id db).1
    ∈ [200; 400; 404; 500]%Z
  ∧ (http_status ProductOut_response (get_product product_id db).1 = 500%Z
     <-> db = None
         ∨ ∃ r, (get_product product_id db).1 = Returns r
                ∧ ProductOut_response r = None).
Proof.
  destruct db as [d|].
  - rewrite get_product_configured.
    destruct (Oid.parse product_id) as [bs|];
      [destruct (db_fault d);
       [|destruct (o ← Oid.of_bytes bs; List.find _ _) as [x|]]|].
    2: { unfold http_status. simpl.
         destruct (ProductOut_response (serialize_doc x)) as [b|] eqn:Hfit.
         - split; [done|]. split; [set_solver|]. split; [done|].
           intros [?|(r & [= <-] & Hr)]; congruence.
         - split; [done|]. split; [set_solver|]. split; [|done].
           intros _. right. by exists (serialize_doc x). }
    all: simpl; split; [done|]; split; [set_solver|].
    all: split; [done|]; by intros [?|(r & ? & _)].
  - simpl. split; [done|]. split; [set_solver|]. split; [|done]. by left.
Qed.

(** X14: when the route of [get_product] answers 400 and when 404.  It
    answers 400 exactly on a configured store that is given an identifier
    [ObjectId] rejects or whose server cannot be reached, and 404 exactly on
    a configured, reachable store given an identifier that [ObjectId]
    accepts and that no stored product carries. *)
Theorem get_product_status_table (product_id : string) (db : Store) :
  (http_status ProductOut_response (get_product product_id db).1 = 400%Z
   <-> ∃ d, db = Some d
            ∧ (Oid.parse product_id = None ∨ is_Some (db_fault d)))
  ∧ (http_status ProductOut_response (get_product product_id db).1 = 404%Z
     <-> ∃ d bs, db = Some d
                 ∧ db_fault d = None
                 ∧ Oid.parse product_id = Some bs
                 ∧ ∀ o, Oid.of_bytes bs = Some o ->
                        List.find (Driver.has_id o)
                          (Driver.collection d "product") = None).
Proof.
  destruct db as [d|].
  - rewrite get_product_configured.
    destruct (Oid.parse product_id) as [bs|] eqn:Hparse.
    + destruct (db_fault d) as [text|] eqn:Hd.
      * simpl. split; split; try done.
        -- intros _. exists d. split; [done|]. right. rewrite Hd. by eexists.
        -- intros (d' & bs' & [= <-] & Hd' & _). congruence.
      * destruct (o ← Oid.of_bytes bs; List.find _ _) as [x|] eqn:Hfind.
        -- assert (http_status ProductOut_response
                     (Returns (serialize_doc x) : outcome exn doc) ≠ 400%Z
                   ∧ http_status ProductOut_response
                       (Returns (serialize_doc x) : outcome exn doc) ≠ 404%Z)
             as [H400 H404].
           { unfold http_status. simpl.
             by destruct (ProductOut_response (serialize_doc x)). }
           simpl. split; split; try done.
           ++ intros (d' & [= <-] & [?|[? Hf]]); [done|]. congruence.
           ++ intros (d' & bs' & [= <-] & _ & [= <-] & Hnone).
              destruct (Oid.of_bytes bs) as [o|]; simpl in Hfind; [|done].
              rewrite (Hnone o) in Hfind; done.
        -- simpl. split; split; try done.
           ++ intros (d' & [= <-] & [?|[? Hf]]); [done|]. congruence.
           ++ intros _. exists d, bs. repeat split; try done.
              intros o Ho. by rewrite Ho in Hfind.
    + simpl. split; split; try done.
      * intros _. exists d. split; [done|]. by left.
      * intros (d' & bs' & _ & _ & ? & _). done.
  - simpl. split; split; try done.
    + by intros (d' & ? & _).
    + by intros (d' & bs' & ? & _).
Qed.

End MoreProductRoutes.

(** ** More on [seed_products] *)

(** X9: on a working store that holds any product at all, [seed_products]
    inserts nothing, reports 0 inserted with its message and leaves the
    store as it is. *)
Theorem seed_products_guard (d : Database) :
  db_fault d = None ->
  Driver.collection d "product" ≠ [] ->
  seed_products (Some d)
  = (Returns {[ "inserted" := VInt 0;
                "message" := VStr "Products already exist" ]}, Some d).
Proof.
  intros Hd Hsome. rewrite seed_products_run by done.
  destruct (Driver.collection d "product") as [|x l]; [done|].
  reflexivity.
Qed.

(** X10: while the server of a configured store cannot be reached,
    [seed_products] lets the driver's exception through, which is answered
    as a 500, and writes nothing. *)
Theorem seed_products_unreachable (text : string) (d : Database) :
  db_fault d = Some text ->
  seed_products (Some d) = (Raises (Exception text), Some d)
  ∧ http_status no_model (seed_products (Some d)).1 = 500%Z.
Proof.
  intros Hd.
  assert (seed_products (Some d) = (Raises (Exception text), Some d)) as Hrun.
  { unfold seed_products, mbind, SE_bind, get_state, driver, call.
    unfold Driver.count_documents, Driver.round_trip. by rewrite Hd. }
  by rewrite Hrun.
Qed.

(** ** More on [test_database] *)

(** X11: in the answer of [test_database], ["database_url"] and
    ["database_name"] say only whether the two environment variables are set
    and not empty; what the body wrote there from the handle is overwritten,
    and the name of the database is never shown. *)
Theorem test_database_env_entries (db : Store) (environ : gmap string string) :
  entry "database_url" (test_database db environ)
  = Some (VStr (if getenv_truthy environ "DATABASE_URL"
                then "✅ Set" else "❌ Not Set"))
  ∧ entry "database_name" (test_database db environ)
    = Some (VStr (if getenv_truthy environ "DATABASE_NAME"
                  then "✅ Set" else "❌ Not Set")).
Proof.
  destruct db as [d|].
  - unfold test_database, Driver.list_collection_names, Driver.round_trip.
    destruct (db_fault d); split; reflexivity.
  - split; reflexivity.
Qed.

(** X12: ["connection_status"] is "Connected" whenever a store is configured,
    reachable or not, and "Not Connected" otherwise; ["collections"] lists
    at most 10 names, and none unless the round trip succeeded. *)
Theorem test_database_connection_entries (db : Store)
    (environ : gmap string string) :
  entry "connection_status" (test_database db environ)
  = Some (VStr (match db with
                | Some _ => "Connected"
                | None => "Not Connected"
                end))
  ∧ ∃ names : list string,
      entry "collections" (test_database db environ)
      = Some (VList (VStr <$> names))
      ∧ length names <= 10
      ∧ match db with
        | Some d =>
            match db_fault d with
            | None => names = take 10 (db_listing d)
            | Some _ => names = []
            end
        | None => names = []
        end.
Proof.
  destruct db as [d|].
  - unfold test_database, Driver.list_collection_names, Driver.round_trip.
    destruct (db_fault d).
    + split; [reflexivity|]. exists []. repeat split. simpl. lia.
    + split; [reflexivity|].
      exists (take 10 (db_listing d)).
      split; [reflexivity|]. split; [|done].
      rewrite length_take. lia.
  - split; [reflexivity|]. exists []. repeat split. simpl. lia.
Qed.

(** X13: the text [test_database] shows of a raised exception is a prefix of
    the exception's text, and the whole of it when that has at most 50
    characters. *)
Theorem test_database_error_text (d : Database) (text : string)
    (environ : gmap string string) :
  db_fault d = Some text ->
  ∃ shown rest,
    entry "database" (test_database (Some d) environ)
    = Some (VStr ("⚠️  Connected but Error: " +:+ shown))
    ∧ text = shown +:+ rest
    ∧ (PyStr.len text <= 50 -> shown = text).
Proof.
  intros Hd. destruct (PyStr_take_prefix 50 text) as [rest Hrest].
  exists (PyStr.take 50 text), rest. split; [|split].
  - unfold test_database, Driver.list_collection_names, Driver.round_trip.
    rewrite Hd. reflexivity.
  - exact Hrest.
  - apply PyStr_take_all.
Qed.

(** ** The further theorems at sample inputs *)

Lemma serialize_doc_keyed_items_witness :
  serialize_doc stale_doc !! "id" = Some (VStr "00000000000000000000000b")
  ∧ serialize_doc stale_doc !! "title" = Some (VStr "Lamp").
Proof.
  destruct (serialize_doc_keyed_items stale_doc 11%N) as (Hid & _ & Hrest);
    [reflexivity|].
  split; [exact Hid|]. by rewrite Hrest.
Defined.

Lemma heap_serialize_doc_identity_witness :
  ∃ l' h', Heap.serialize_doc (Heap.RDict 1%positive) one_dict
           = Some (Heap.RDict l', h')
           ∧ l' ≠ 1%positive ∧ one_dict !! l' = None ∧ is_Some (h' !! l').
Proof.
  apply (heap_serialize_doc_identity one_dict 1%positive stored_mug).
  reflexivity.
Defined.

Lemma get_product_unreachable_400_witness :
  get_product "00000000000000000000000b" (Some unreachable_db)
  = (Raises (HTTPException 400 "Invalid product id"), Some unreachable_db).
Proof.
  apply (get_product_unreachable_400 _
           "localhost:27017: [Errno 111] Connection refused").
  reflexivity.
Defined.

Lemma get_product_returns_canonical_id_witness :
  ∃ d bs o x,
    Some shelf_db = Some d
    ∧ Oid.parse "00000000000000000000000B" = Some bs
    ∧ Oid.of_bytes bs = Some o
    ∧ List.find (Driver.has_id o) (Driver.collection d "product") = Some x
    ∧ serialize_doc stale_doc = serialize_doc x
    ∧ serialize_doc stale_doc !! "id" = Some (VStr (Oid.to_str o))
    ∧ Oid.parse (Oid.to_str o) = Some bs.
Proof.
  apply (get_product_returns_canonical_id "00000000000000000000000B"
           (Some shelf_db) (serialize_doc stale_doc) (Some shelf_db)).
  reflexivity.
Defined.

Lemma get_product_finds_stored_witness :
  get_product "00000000000000000000000b" (Some shelf_db)
  = (Returns (serialize_doc stale_doc), Some shelf_db).
Proof.
  apply (get_product_finds_stored shelf_db stale_doc 11%N).
  - reflexivity.
  - set_solver.
  - reflexivity.
  - reflexivity.
  - intros y [->|[->|Hy]%elem_of_cons]%elem_of_cons; [done|done|].
    by apply elem_of_nil in Hy.
Defined.

Lemma seed_products_guard_witness :
  seed_products (Some shelf_db)
  = (Returns {[ "inserted" := VInt 0;
                "message" := VStr "Products already exist" ]}, Some shelf_db).
Proof. apply (seed_products_guard shelf_db); [reflexivity|discriminate]. Defined.

Lemma seed_products_unreachable_witness :
  seed_products (Some unreachable_db)
  = (Raises (Exception "localhost:27017: [Errno 111] Connection refused"),
     Some unreachable_db).
Proof.
  apply (seed_products_unreachable
           "localhost:27017: [Errno 111] Connection refused" unreachable_db).
  reflexivity.
Defined.

Lemma test_database_error_text_witness :
  ∃ shown rest,
    entry "database" (test_database (Some unreachable_db) ∅)
    = Some (VStr ("⚠️  Connected but Error: " +:+ shown))
    ∧ "localhost:27017: [Errno 111] Connection refused" = shown +:+ rest
    ∧ (PyStr.len "localhost:27017: [Errno 111] Connection refused" <= 50
       -> shown = "localhost:27017: [Errno 111] Connection refused").
Proof.
  apply (test_database_error_text unreachable_db
           "localhost:27017: [Errno 111] Connection refused" ∅).
  reflexivity.
Defined.
